(** * Black-Scholes price and Greeks: the notebook [option_greeks.ipynb]

    A shallow embedding of the six functions of the notebook's code cells
    ([d], [call_price], [put_price], [delta], [gamma], [theta]) and the
    properties of them that the specification states.

    Numbers.  The notebook computes on IEEE 754 binary64 values (Python
    [float] and [numpy.float64]).  A value is modelled by [float]: a finite
    number is an exact real, next to the two infinities and NaN, with the
    IEEE rules for the special values.  Rounding and the sign of zero are
    not modelled ([-0.0] is [0.0]).  The range of binary64 is modelled
    where the source divides two Python floats or squares one ([to_range],
    [py_div], [py_sqr]): Python's [**] raises [OverflowError] there.  The
    other operations are exact on finite values.

    External functions.  [norm.cdf] and [norm.pdf] of [scipy.stats] are the
    section variables [Phi] and [phi] on finite arguments. *)

From Stdlib Require Import Reals Lra Bool String.

Open Scope R_scope.
Open Scope string_scope.

(** ** Values and outcomes *)

(** A binary64 value: a finite real, an infinity ([Inf true] is [-inf]) or
    NaN. *)
Inductive float : Type :=
  | Fin (x : R)
  | Inf (neg : bool)
  | NaN.

(** The Python exceptions the code can raise. *)
Inductive exn : Type :=
  | NameError (name : string)
  | UnboundLocalError (name : string)
  | ZeroDivisionError
  | OverflowError.

(** The outcome of a call: a returned value or a raised exception. *)
Inductive result (A : Type) : Type :=
  | Ret (v : A)
  | Raise (e : exn).

Arguments Ret {A} v.
Arguments Raise {A} e.

Definition bind {A B : Type} (c : result A) (k : A -> result B) : result B :=
  match c with
  | Ret v => k v
  | Raise e => Raise e
  end.

Notation "x <- c ;; k" := (bind c (fun x => k))
  (at level 61, c at next level, right associativity).

(** A call fails when it raises. *)
Definition raises {A : Type} (c : result A) : bool :=
  match c with
  | Ret _ => false
  | Raise _ => true
  end.

(** What a function returns to its caller: a number, or [None] when the
    body ends without a [return]. *)
Inductive pyval : Type :=
  | PyFloat (x : float)
  | PyNone.

(** [np.isfinite]: neither an infinity nor NaN. *)
Definition isfinite (x : float) : bool :=
  match x with
  | Fin _ => true
  | _ => false
  end.

(** The module's global names, as far as they are bound to numbers. *)
Definition namespace : Type := string -> option float.

Definition ns_empty : namespace := fun _ => None.

Definition ns_set (G : namespace) (name : string) (v : float) : namespace :=
  fun x => if String.eqb x name then Some v else G x.

(** Reading a name that the function does not assign: a global load. *)
Definition load_global (G : namespace) (name : string) : result float :=
  match G name with
  | Some v => Ret v
  | None => Raise (NameError name)
  end.

(** Reading a local that may not have been assigned. *)
Definition load_local (name : string) (slot : option float) : result float :=
  match slot with
  | Some v => Ret v
  | None => Raise (UnboundLocalError name)
  end.

(** ** Arithmetic on [float] *)

(** The sign of a real, zero counted as positive. *)
Definition Rneg (x : R) : bool := if Rlt_dec x 0 then true else false.

Definition fneg (a : float) : float :=
  match a with
  | Fin x => Fin (- x)
  | Inf s => Inf (negb s)
  | NaN => NaN
  end.

Definition fadd (a b : float) : float :=
  match a, b with
  | NaN, _ | _, NaN => NaN
  | Fin x, Fin y => Fin (x + y)
  | Fin _, Inf s | Inf s, Fin _ => Inf s
  | Inf s, Inf s' => if Bool.eqb s s' then Inf s else NaN
  end.

Definition fsub (a b : float) : float := fadd a (fneg b).

Definition fmul (a b : float) : float :=
  match a, b with
  | NaN, _ | _, NaN => NaN
  | Fin x, Fin y => Fin (x * y)
  | Fin x, Inf s | Inf s, Fin x =>
      if Req_dec_T x 0 then NaN else Inf (xorb (Rneg x) s)
  | Inf s, Inf s' => Inf (xorb s s')
  end.

(** Division as numpy does it: a zero divisor gives an infinity or NaN
    (and a warning), never an exception. *)
Definition fdiv (a b : float) : float :=
  match a, b with
  | NaN, _ | _, NaN => NaN
  | Fin x, Fin y =>
      if Req_dec_T y 0
      then (if Req_dec_T x 0 then NaN else Inf (Rneg x))
      else Fin (x / y)
  | Fin _, Inf _ => Fin 0
  | Inf s, Fin y => Inf (xorb s (Rneg y))
  | Inf _, Inf _ => NaN
  end.

Definition float_max_Z : Z := Eval vm_compute in (2 ^ 1024 - 2 ^ 971)%Z.

(** The largest finite binary64 number, [2^1024 - 2^971]. *)
Definition float_max : R := IZR float_max_Z.

Definition float_tiny_Z : Z := Eval vm_compute in (2 ^ 1075)%Z.

(** Half the smallest positive binary64 number, [2^-1075]: a result of
    smaller magnitude is zero. *)
Definition float_tiny : R := / IZR float_tiny_Z.

(** A real result brought into the range of binary64: an infinity above
    [float_max], zero below [float_tiny]. *)
Definition to_range (x : R) : float :=
  if Rlt_dec float_max (Rabs x) then Inf (Rneg x)
  else if Rlt_dec (Rabs x) float_tiny then Fin 0
  else Fin x.

Definition fround (a : float) : float :=
  match a with
  | Fin x => to_range x
  | _ => a
  end.

(** [a / b] on two Python floats: a zero divisor raises; a quotient out
    of range is an infinity or zero. *)
Definition py_div (a b : float) : result float :=
  match b with
  | Fin y =>
      if Req_dec_T y 0 then Raise ZeroDivisionError
      else Ret (fround (fdiv a b))
  | _ => Ret (fdiv a b)
  end.

(** [x ** 2] on a Python float: a square above the largest finite number
    raises [OverflowError]; a square below the range is zero. *)
Definition py_sqr (a : float) : result float :=
  match a with
  | Fin x =>
      if Rlt_dec float_max (x * x) then Raise OverflowError
      else Ret (to_range (x * x))
  | Inf _ => Ret (Inf false)
  | NaN => Ret NaN
  end.

(** [np.sqrt]. *)
Definition np_sqrt (a : float) : float :=
  match a with
  | Fin x => if Rlt_dec x 0 then NaN else Fin (sqrt x)
  | Inf false => Inf false
  | Inf true => NaN
  | NaN => NaN
  end.

(** [np.log]. *)
Definition np_log (a : float) : float :=
  match a with
  | Fin x =>
      if Rlt_dec x 0 then NaN
      else if Req_dec_T x 0 then Inf true
      else Fin (ln x)
  | Inf false => Inf false
  | Inf true => NaN
  | NaN => NaN
  end.

(** [np.exp]. *)
Definition np_exp (a : float) : float :=
  match a with
  | Fin x => Fin (exp x)
  | Inf false => Inf false
  | Inf true => Fin 0
  | NaN => NaN
  end.

Declare Scope float_scope.
Delimit Scope float_scope with fl.
Bind Scope float_scope with float.
Infix "+" := fadd : float_scope.
Infix "-" := fsub : float_scope.
Infix "*" := fmul : float_scope.
Infix "/" := fdiv : float_scope.
Notation "- x" := (fneg x) : float_scope.

(** ** The notebook's functions *)

Section Notebook.

(** The standard normal distribution function and density of
    [scipy.stats.norm], on finite arguments. *)
Variable Phi : R -> R.
Variable phi : R -> R.

(** [norm.cdf]. *)
Definition norm_cdf (a : float) : float :=
  match a with
  | Fin x => Fin (Phi x)
  | Inf false => Fin 1
  | Inf true => Fin 0
  | NaN => NaN
  end.

(** [norm.pdf]. *)
Definition norm_pdf (a : float) : float :=
  match a with
  | Fin x => Fin (phi x)
  | Inf _ => Fin 0
  | NaN => NaN
  end.

(** [[
    def d(sigma, S, K, r, t):
        d1 = 1 / (sigma * np.sqrt(t)) * ( np.log(S/K) + (r + sigma**2/2) * t)
        d2 = d1 - sigma * np.sqrt(t)
        return d1, d2
    ]]
    [S/K] divides two Python floats, so it raises on [K = 0]; the other
    divisions have a numpy divisor or the divisor [2].  [sigma**2] is
    Python's power of a float and is evaluated after [S/K]. *)
Definition d (sigma S K r t : float) : result (float * float) :=
  let scale := (Fin 1 / (sigma * np_sqrt t))%fl in
  q <- py_div S K ;;
  s2 <- py_sqr sigma ;;
  let d1 := (scale * (np_log q + (r + s2 / Fin 2) * t))%fl in
  let d2 := (d1 - sigma * np_sqrt t)%fl in
  Ret (d1, d2).

(** [[
    def call_price(sigma, S, K, r, t, d1, d2):
        C = norm.cdf(d1) * S - norm.cdf(d2) * K * np.exp(-r * t)
        return C
    ]] *)
Definition call_price (sigma S K r t d1 d2 : float) : float :=
  (norm_cdf d1 * S - norm_cdf d2 * K * np_exp (- r * t))%fl.

(** [[
    def put_price(sigma, S, K, r, t, d1, d2):
        P = -norm.cdf(-d1) * S + norm.cdf(-d2) * K * np.exp(-r * t)
        return P
    ]] *)
Definition put_price (sigma S K r t d1 d2 : float) : float :=
  (- norm_cdf (- d1) * S + norm_cdf (- d2) * K * np_exp (- r * t))%fl.

(** [[
    def delta(d_1, contract_type):
        if contract_type == 'c':
            return norm.cdf(d1)
        if contract_type == 'p':
            return -norm.cdf(-d_1)
    ]]
    [d1] is not a parameter and is not assigned in the body: it is read
    from the module's globals [G].  A body that ends without [return]
    gives [None]. *)
Definition delta (G : namespace) (d_1 : float) (contract_type : string)
  : result pyval :=
  if String.eqb contract_type "c" then
    d1 <- load_global G "d1" ;;
    Ret (PyFloat (norm_cdf d1))
  else if String.eqb contract_type "p" then
    Ret (PyFloat (- norm_cdf (- d_1))%fl)
  else Ret PyNone.

(** [[
    def gamma(d2, S, K, sigma, r, t):
        return( K * np.exp(-r * t) * (norm.pdf(d2) / (S**2 * sigma * np.sqrt(t) )))
    ]]
    [S**2] is Python's power of a float, the only operation of the body
    that can raise. *)
Definition gamma (d2 S K sigma r t : float) : result float :=
  s2 <- py_sqr S ;;
  Ret (K * np_exp (- r * t) * (norm_pdf d2 / (s2 * sigma * np_sqrt t)))%fl.

(** [[
    def theta(d1, d2, S, K, sigma, r, t, contract_type):
        if contract_type == 'c':
            theta = -S * sigma * norm.pdf(d1) / (2 * np.sqrt(t)) - r * K * np.exp(-r * t) * norm.cdf(d2)
        if contract_type == 'p':
            theta = -S * sigma * norm.pdf(-d1) / (2 * np.sqrt(t)) + r * K * np.exp(-r * t) * norm.cdf(-d2)

        return theta
    ]]
    [theta] is a local of the body (it is assigned there); the two [if]s
    run one after the other, and the [return] reads the local. *)
Definition theta (d1 d2 S K sigma r t : float) (contract_type : string)
  : result float :=
  let theta0 : option float := None in
  let theta1 :=
    if String.eqb contract_type "c" then
      Some (- S * sigma * norm_pdf d1 / (Fin 2 * np_sqrt t)
            - r * K * np_exp (- r * t) * norm_cdf d2)%fl
    else theta0 in
  let theta2 :=
    if String.eqb contract_type "p" then
      Some (- S * sigma * norm_pdf (- d1) / (Fin 2 * np_sqrt t)
            + r * K * np_exp (- r * t) * norm_cdf (- d2))%fl
    else theta1 in
  load_local "theta" theta2.

End Notebook.

(** ** The notebook's driver cells

    The cells after the definitions read their operands from the module's
    globals and call the functions above.  A cell is modelled as a
    function of the globals; a name is loaded when its argument is
    evaluated, left to right. *)

Section Cells.

Variable Phi : R -> R.
Variable phi : R -> R.

(** [[
    d1, d2 = d(sigma, S, K, r, t)
    ]]
    The call's result is unpacked into the globals [d1] and [d2]. *)
Definition cell_d (G : namespace) : result namespace :=
  sigma <- load_global G "sigma" ;;
  S <- load_global G "S" ;;
  K <- load_global G "K" ;;
  r <- load_global G "r" ;;
  t <- load_global G "t" ;;
  p <- d sigma S K r t ;;
  Ret (ns_set (ns_set G "d1" (fst p)) "d2" (snd p)).

(** [[
    delta_call = delta(d1, 'c')
    delta_put = delta(d1, 'p')
    ]]
    The two values that the cell prints. *)
Definition cell_delta (G : namespace) : result (pyval * pyval) :=
  a <- load_global G "d1" ;;
  delta_call <- delta Phi G a "c" ;;
  b <- load_global G "d1" ;;
  delta_put <- delta Phi G b "p" ;;
  Ret (delta_call, delta_put).

(** [[
    print( 'Gamma = ', gamma(d2, S, K, sigma, r, t) )
    ]] *)
Definition cell_gamma (G : namespace) : result float :=
  d2 <- load_global G "d2" ;;
  S <- load_global G "S" ;;
  K <- load_global G "K" ;;
  sigma <- load_global G "sigma" ;;
  r <- load_global G "r" ;;
  t <- load_global G "t" ;;
  gamma phi d2 S K sigma r t.

(** The argument list [(d1, d2, S, K, sigma, r, t, ct)] of the last cell's
    two calls of [theta]. *)
Definition theta_from_globals (G : namespace) (ct : string) : result float :=
  d1 <- load_global G "d1" ;;
  d2 <- load_global G "d2" ;;
  S <- load_global G "S" ;;
  K <- load_global G "K" ;;
  sigma <- load_global G "sigma" ;;
  r <- load_global G "r" ;;
  t <- load_global G "t" ;;
  theta Phi phi d1 d2 S K sigma r t ct.

(** [[
    print( 'Call Theta = ', theta(d1, d2, S, K, sigma, r, t, 'c') / 365 * 100)
    print( 'Put Thata = ', theta(d1, d2, S, K, sigma, r, t, 'p') / 365 * 100)
    ]] *)
Definition cell_theta (G : namespace) : result (float * float) :=
  c <- theta_from_globals G "c" ;;
  p <- theta_from_globals G "p" ;;
  Ret ((c / Fin 365 * Fin 100)%fl, (p / Fin 365 * Fin 100)%fl).

End Cells.

(** The globals after the cell that assigns the five market inputs. *)
Definition market_globals (G : namespace) (S K r t sigma : float) : namespace :=
  ns_set (ns_set (ns_set (ns_set (ns_set G "S" S) "K" K) "r" r) "t" t)
    "sigma" sigma.

(** ** Inputs of moderate size

    A bound on the market inputs under which no intermediate value of
    the functions leaves the range of binary64. *)

Definition box : R := 1000000000000000000000000000000.

(** A positive number between [1e-30] and [1e30]. *)
Definition moderate (x : R) : Prop := / box <= x <= box.

(** A number whose square is above the largest finite binary64 number,
    [1e200]. *)
Definition huge_Z : Z := Eval vm_compute in (10 ^ 200)%Z.

Definition huge : R := IZR huge_Z.

(** ** Sample instances of the external functions *)

(** The standard normal density, [exp (- x^2 / 2) / sqrt (2 pi)]. *)
Definition std_normal_pdf (x : R) : R := exp (- (x ^ 2) / 2) / sqrt (2 * PI).

(** The logistic distribution function: a distribution function that is
    symmetric about zero, used where a statement needs some concrete
    distribution function in place of [Phi]. *)
Definition logistic_cdf (x : R) : R := / (1 + exp (- x)).

(** ** Finite arithmetic *)

Lemma fdiv_Fin (x y : R) : y <> 0 -> (Fin x / Fin y)%fl = Fin (x / y).
Proof.
  intros Hy. unfold fdiv.
  destruct (Req_dec_T y 0) as [E | _]; [contradiction | reflexivity].
Qed.

(** ** The range of binary64 *)

Lemma box_pos : 0 < box.
Proof. unfold box. lra. Qed.

Lemma box_sq_max : box * box <= float_max.
Proof. unfold box, float_max, float_max_Z. lra. Qed.

Lemma box_sq_tiny : float_tiny <= / box * / box.
Proof. unfold box, float_tiny, float_tiny_Z. lra. Qed.

Lemma to_range_id (x : R) :
  float_tiny <= Rabs x <= float_max -> to_range x = Fin x.
Proof.
  intros [Hlo Hhi]. unfold to_range.
  destruct (Rlt_dec float_max (Rabs x)); [lra |].
  destruct (Rlt_dec (Rabs x) float_tiny); [lra | reflexivity].
Qed.

Lemma Rabs_box_inv (x : R) : / box <= Rabs x <= box -> / box <= / Rabs x <= box.
Proof.
  intros [Hlo Hhi]. pose proof box_pos as Hb.
  pose proof (Rinv_0_lt_compat _ Hb) as Hib.
  assert (Hx : 0 < Rabs x) by lra.
  split.
  - apply Rinv_le_contravar; assumption.
  - rewrite <- (Rinv_inv box). apply Rinv_le_contravar; assumption.
Qed.

Lemma box_mul_range (x y : R) :
  / box <= Rabs x <= box -> / box <= Rabs y <= box ->
  float_tiny <= Rabs (x * y) <= float_max.
Proof.
  intros Hx Hy. rewrite Rabs_mult.
  pose proof box_pos as Hb. pose proof (Rinv_0_lt_compat _ Hb) as Hib.
  pose proof box_sq_max. pose proof box_sq_tiny.
  split; [apply Rle_trans with (/ box * / box) | apply Rle_trans with (box * box)];
    try assumption; apply Rmult_le_compat; lra.
Qed.

Lemma box_div_range (x y : R) :
  / box <= Rabs x <= box -> / box <= Rabs y <= box ->
  float_tiny <= Rabs (x / y) <= float_max.
Proof.
  intros Hx Hy. unfold Rdiv.
  assert (Hy0 : y <> 0).
  { intros ->. rewrite Rabs_R0 in Hy. pose proof box_pos as Hb.
    pose proof (Rinv_0_lt_compat _ Hb). lra. }
  apply box_mul_range; [assumption |].
  rewrite Rabs_inv. now apply Rabs_box_inv.
Qed.

Lemma moderate_abs (x : R) : moderate x -> / box <= Rabs x <= box.
Proof.
  intros [Hlo Hhi]. pose proof (Rinv_0_lt_compat _ box_pos).
  rewrite Rabs_pos_eq by lra. now split.
Qed.

Lemma moderate_pos (x : R) : moderate x -> 0 < x.
Proof. intros [Hlo _]. pose proof (Rinv_0_lt_compat _ box_pos). lra. Qed.

Lemma py_div_nonzero (x y : R) :
  y <> 0 -> py_div (Fin x) (Fin y) = Ret (to_range (x / y)).
Proof.
  intros Hy. unfold py_div.
  destruct (Req_dec_T y 0) as [E | _]; [contradiction |].
  now rewrite fdiv_Fin.
Qed.

Lemma py_div_Fin (x y : R) :
  / box <= Rabs x <= box -> / box <= Rabs y <= box ->
  py_div (Fin x) (Fin y) = Ret (Fin (x / y)).
Proof.
  intros Hx Hy.
  assert (Hy0 : y <> 0).
  { intros ->. rewrite Rabs_R0 in Hy.
    pose proof (Rinv_0_lt_compat _ box_pos). lra. }
  rewrite py_div_nonzero by assumption.
  now rewrite to_range_id by now apply box_div_range.
Qed.

Lemma py_sqr_small (x : R) :
  Rabs x <= box -> py_sqr (Fin x) = Ret (to_range (x * x)).
Proof.
  intros Hx. unfold py_sqr.
  destruct (Rlt_dec float_max (x * x)) as [L | _]; [| reflexivity].
  exfalso. pose proof box_sq_max. pose proof (Rabs_pos x).
  assert (x * x = Rabs x * Rabs x).
  { rewrite <- Rabs_mult. symmetry. apply Rabs_pos_eq. nra. }
  nra.
Qed.

Lemma py_sqr_Fin (x : R) :
  / box <= Rabs x <= box -> py_sqr (Fin x) = Ret (Fin (x * x)).
Proof.
  intros Hx. rewrite py_sqr_small by lra.
  now rewrite to_range_id by now apply box_mul_range.
Qed.

Lemma py_sqr_huge : py_sqr (Fin huge) = Raise OverflowError.
Proof.
  unfold py_sqr.
  destruct (Rlt_dec float_max (huge * huge)) as [_ | N]; [reflexivity |].
  exfalso. apply N. unfold huge, huge_Z, float_max, float_max_Z. lra.
Qed.

(** ** Finite results *)

Lemma np_sqrt_Fin (x : R) : 0 <= x -> np_sqrt (Fin x) = Fin (sqrt x).
Proof.
  intros Hx. unfold np_sqrt.
  destruct (Rlt_dec x 0) as [L | _]; [lra | reflexivity].
Qed.

Lemma np_log_Fin (x : R) : 0 < x -> np_log (Fin x) = Fin (ln x).
Proof.
  intros Hx. unfold np_log.
  destruct (Rlt_dec x 0) as [L | _]; [lra |].
  destruct (Req_dec_T x 0) as [E | _]; [lra | reflexivity].
Qed.

Lemma sigma_sqrt_pos (sigma t : R) : 0 < sigma -> 0 < t -> 0 < sigma * sqrt t.
Proof.
  intros Hs Ht. apply Rmult_lt_0_compat; [assumption | now apply sqrt_lt_R0].
Qed.

Lemma logistic_cdf_sym (x : R) : logistic_cdf x + logistic_cdf (- x) = 1.
Proof.
  unfold logistic_cdf. rewrite Ropp_involutive, exp_Ropp.
  pose proof (exp_pos x) as Hx.
  field. split; lra.
Qed.

(** ** The auxiliary quantities *)

(** C5, as the code has it: for [sigma], [t], [S] and [K] between
    [1e-30] and [1e30] and a rate of magnitude at most [1e30], [d]
    returns the pair [(d1, d2)] with
    [d1 = (ln (S/K) + (r + sigma^2/2) t) / (sigma sqrt t)] and
    [d2 = d1 - sigma sqrt t]. *)
Theorem d_formula (sigma S K r t : R) :
  moderate sigma -> moderate t -> moderate S -> moderate K ->
  Rabs r <= box ->
  d (Fin sigma) (Fin S) (Fin K) (Fin r) (Fin t) =
  Ret (Fin ((ln (S / K) + (r + sigma ^ 2 / 2) * t) / (sigma * sqrt t)),
       Fin ((ln (S / K) + (r + sigma ^ 2 / 2) * t) / (sigma * sqrt t)
            - sigma * sqrt t)).
Proof.
  intros Ms Mt MS MK _.
  pose proof (moderate_pos _ Ms) as Hs. pose proof (moderate_pos _ Mt) as Ht.
  pose proof (moderate_pos _ MS) as HS. pose proof (moderate_pos _ MK) as HK.
  pose proof (sigma_sqrt_pos sigma t Hs Ht) as Hden.
  pose proof (sqrt_lt_R0 t Ht) as Hsq.
  assert (Hq : 0 < S / K) by now apply Rdiv_lt_0_compat.
  unfold d.
  rewrite py_div_Fin by now apply moderate_abs.
  cbn [bind].
  rewrite py_sqr_Fin by now apply moderate_abs.
  cbn [bind].
  rewrite np_sqrt_Fin by lra. cbn [fmul].
  rewrite !fdiv_Fin by lra.
  rewrite np_log_Fin by assumption.
  cbn [fadd fmul fsub fneg].
  f_equal. f_equal; f_equal; field; repeat split; lra.
Qed.

(** The notebook's own data are of moderate size, so [d] returns there
    the pair of the two closed forms. *)
Lemma d_formula_witness :
  d (Fin (6966 / 10000)) (Fin (81942 / 100)) (Fin 1020) (Fin (1 / 100))
    (Fin (42 / 365)) =
  Ret (Fin ((ln (81942 / 100 / 1020)
             + (1 / 100 + (6966 / 10000) ^ 2 / 2) * (42 / 365))
            / (6966 / 10000 * sqrt (42 / 365))),
       Fin ((ln (81942 / 100 / 1020)
             + (1 / 100 + (6966 / 10000) ^ 2 / 2) * (42 / 365))
            / (6966 / 10000 * sqrt (42 / 365))
            - 6966 / 10000 * sqrt (42 / 365))).
Proof.
  apply (d_formula (6966 / 10000) (81942 / 100) 1020 (1 / 100) (42 / 365));
    unfold moderate, box; try lra.
  unfold Rabs. destruct (Rcase_abs (1 / 100)); lra.
Defined.

(** C5 fails as stated: the volatility [1e200] is positive, and
    [sigma**2] raises [OverflowError]. *)
Lemma d_huge_sigma_overflows :
  d (Fin huge) (Fin 1) (Fin 1) (Fin 0) (Fin 1) = Raise OverflowError.
Proof.
  unfold d. rewrite py_div_nonzero by lra. cbn [bind].
  rewrite py_sqr_huge. reflexivity.
Qed.

(** [d] at volatility, spot, strike and time one and rate zero. *)
Lemma d_unit_inputs :
  d (Fin 1) (Fin 1) (Fin 1) (Fin 0) (Fin 1) = Ret (Fin (1 / 2), Fin (- (1 / 2))).
Proof.
  assert (H1 : / box <= Rabs 1 <= box).
  { rewrite Rabs_R1. unfold box. lra. }
  unfold d.
  rewrite py_div_Fin by assumption. cbn [bind].
  rewrite py_sqr_Fin by assumption. cbn [bind].
  rewrite np_sqrt_Fin by lra. cbn [fmul].
  rewrite sqrt_1.
  rewrite !fdiv_Fin by lra.
  replace (1 / 1) with 1 by field.
  rewrite np_log_Fin by lra. rewrite ln_1.
  cbn [fadd fmul fsub fneg].
  f_equal. f_equal; f_equal; field.
Qed.

(** ** Prices and Greeks on finite inputs *)

Section Formulas.

Variable Phi : R -> R.
Variable phi : R -> R.

(** C6, as the code has it: for [S], [K], [sigma] and [t] between
    [1e-30] and [1e30] and [|r t| <= 100], [gamma] returns
    [K e^(-r t) phi(d2) / (S^2 sigma sqrt t)]; the rate in the exponent is
    the parameter [r]. *)
Theorem gamma_formula (d2 S K sigma r t : R) :
  moderate S -> moderate K -> moderate sigma -> moderate t ->
  Rabs (r * t) <= 100 ->
  gamma phi (Fin d2) (Fin S) (Fin K) (Fin sigma) (Fin r) (Fin t) =
  Ret (Fin (K * exp (- (r * t)) * phi d2 / (S ^ 2 * sigma * sqrt t))).
Proof.
  intros MS MK Ms Mt _.
  pose proof (moderate_pos _ MS) as HS. pose proof (moderate_pos _ Ms) as Hs.
  pose proof (moderate_pos _ Mt) as Ht.
  pose proof (sqrt_lt_R0 t Ht) as Hsq.
  assert (Hden : 0 < S * S * sigma * sqrt t).
  { repeat apply Rmult_lt_0_compat; assumption. }
  unfold gamma.
  rewrite py_sqr_Fin by now apply moderate_abs.
  cbn [bind].
  rewrite np_sqrt_Fin by lra.
  cbn [fmul fneg np_exp norm_pdf].
  rewrite fdiv_Fin by lra.
  cbn [fmul].
  do 2 f_equal.
  replace (- r * t) with (- (r * t)) by ring.
  field. repeat split; lra.
Qed.

(** C7: for [t > 0], [theta] for a call returns
    [-(S sigma phi(d1)) / (2 sqrt t) - r K e^(-r t) Phi(d2)] and for a put
    [-(S sigma phi(-d1)) / (2 sqrt t) + r K e^(-r t) Phi(-d2)]. *)
Theorem theta_formula (d1 d2 S K sigma r t : R) :
  0 < t ->
  theta Phi phi (Fin d1) (Fin d2) (Fin S) (Fin K) (Fin sigma) (Fin r)
    (Fin t) "c" =
  Ret (Fin (- (S * sigma * phi d1) / (2 * sqrt t)
            - r * K * exp (- (r * t)) * Phi d2))
  /\
  theta Phi phi (Fin d1) (Fin d2) (Fin S) (Fin K) (Fin sigma) (Fin r)
    (Fin t) "p" =
  Ret (Fin (- (S * sigma * phi (- d1)) / (2 * sqrt t)
            + r * K * exp (- (r * t)) * Phi (- d2))).
Proof.
  intros Ht.
  pose proof (sqrt_lt_R0 t Ht) as Hsq.
  unfold theta; cbn [String.eqb Ascii.eqb Bool.eqb load_local].
  rewrite np_sqrt_Fin by lra.
  cbn [fmul fneg fadd fsub np_exp norm_pdf norm_cdf].
  rewrite !fdiv_Fin by lra.
  cbn [fadd fsub fneg].
  replace (- r * t) with (- (r * t)) by ring.
  split; do 2 f_equal; field; lra.
Qed.

(** C4: when [Phi x + Phi (- x) = 1] for every [x], the call price minus
    the put price is [S - K e^(-r t)] (put-call parity), for [S], [K],
    [t > 0] and any [d1], [d2]. *)
Theorem put_call_parity (sigma : float) (S K r t d1 d2 : R) :
  (forall x, Phi x + Phi (- x) = 1) ->
  0 < S -> 0 < K -> 0 < t ->
  (call_price Phi sigma (Fin S) (Fin K) (Fin r) (Fin t) (Fin d1) (Fin d2)
   - put_price Phi sigma (Fin S) (Fin K) (Fin r) (Fin t) (Fin d1) (Fin d2))%fl
  = Fin (S - K * exp (- (r * t))).
Proof.
  intros Hsym _ _ _.
  unfold call_price, put_price.
  cbn [fmul fneg fadd fsub np_exp norm_cdf].
  f_equal.
  replace (- r * t) with (- (r * t)) by ring.
  pose proof (Hsym d1) as H1. pose proof (Hsym d2) as H2.
  set (e := exp (- (r * t))).
  replace (Phi d1) with (1 - Phi (- d1)) by lra.
  replace (Phi d2) with (1 - Phi (- d2)) by lra.
  ring.
Qed.

(** C10: [call_price] and [put_price] do not depend on their [sigma]
    argument. *)
Theorem price_ignores_sigma (sigma sigma' S K r t d1 d2 : float) :
  call_price Phi sigma S K r t d1 d2 = call_price Phi sigma' S K r t d1 d2
  /\ put_price Phi sigma S K r t d1 d2 = put_price Phi sigma' S K r t d1 d2.
Proof. split; reflexivity. Qed.

End Formulas.

(** The closed form of [gamma] at the notebook's data, with the normal
    density and [d2 = -1]. *)
Lemma gamma_formula_witness :
  gamma std_normal_pdf (Fin (-1)) (Fin (81942 / 100)) (Fin 1020)
    (Fin (6966 / 10000)) (Fin (1 / 100)) (Fin (42 / 365)) =
  Ret (Fin (1020 * exp (- (1 / 100 * (42 / 365))) * std_normal_pdf (-1)
            / ((81942 / 100) ^ 2 * (6966 / 10000) * sqrt (42 / 365)))).
Proof.
  apply (gamma_formula std_normal_pdf (-1) (81942 / 100) 1020 (6966 / 10000)
           (1 / 100) (42 / 365)); unfold moderate, box; try lra.
  unfold Rabs. destruct (Rcase_abs (1 / 100 * (42 / 365))); lra.
Defined.

(** C6 fails as stated: the spot [1e200] is positive, and [S**2] raises
    [OverflowError]. *)
Lemma gamma_huge_spot_overflows :
  gamma std_normal_pdf (Fin 0) (Fin huge) (Fin 1) (Fin 1) (Fin 0) (Fin 1)
  = Raise OverflowError.
Proof. unfold gamma. rewrite py_sqr_huge. reflexivity. Qed.

(** The two closed forms of [theta] at the notebook's data, with
    [d1 = d2 = -1]. *)
Lemma theta_formula_witness :
  theta logistic_cdf std_normal_pdf (Fin (-1)) (Fin (-1)) (Fin (81942 / 100))
    (Fin 1020) (Fin (6966 / 10000)) (Fin (1 / 100)) (Fin (42 / 365)) "c" =
  Ret (Fin (- (81942 / 100 * (6966 / 10000) * std_normal_pdf (-1))
            / (2 * sqrt (42 / 365))
            - 1 / 100 * 1020 * exp (- (1 / 100 * (42 / 365)))
              * logistic_cdf (-1)))
  /\
  theta logistic_cdf std_normal_pdf (Fin (-1)) (Fin (-1)) (Fin (81942 / 100))
    (Fin 1020) (Fin (6966 / 10000)) (Fin (1 / 100)) (Fin (42 / 365)) "p" =
  Ret (Fin (- (81942 / 100 * (6966 / 10000) * std_normal_pdf (- -1))
            / (2 * sqrt (42 / 365))
            + 1 / 100 * 1020 * exp (- (1 / 100 * (42 / 365)))
              * logistic_cdf (- -1))).
Proof.
  apply (theta_formula logistic_cdf std_normal_pdf (-1) (-1) (81942 / 100) 1020
           (6966 / 10000) (1 / 100) (42 / 365)); lra.
Defined.

(** Parity of the two prices at the notebook's data, with the logistic
    distribution function, which is symmetric. *)
Lemma put_call_parity_witness :
  (call_price logistic_cdf (Fin (6966 / 10000)) (Fin (81942 / 100)) (Fin 1020)
     (Fin (1 / 100)) (Fin (42 / 365)) (Fin (-1)) (Fin (-1))
   - put_price logistic_cdf (Fin (6966 / 10000)) (Fin (81942 / 100)) (Fin 1020)
       (Fin (1 / 100)) (Fin (42 / 365)) (Fin (-1)) (Fin (-1)))%fl
  = Fin (81942 / 100 - 1020 * exp (- (1 / 100 * (42 / 365)))).
Proof.
  apply (put_call_parity logistic_cdf (Fin (6966 / 10000)) (81942 / 100) 1020
           (1 / 100) (42 / 365) (-1) (-1)); [exact logistic_cdf_sym | lra ..].
Defined.

(** ** Values that are not finite *)



Lemma fadd_Fin_r (a : float) (y : R) :
  isfinite a = false -> isfinite (a + Fin y)%fl = false.
Proof.
  intros Ha. destruct a as [x | s |]; cbn in *; [discriminate | reflexivity ..].
Qed.

Lemma fsub_Fin_r (a : float) (y : R) :
  isfinite a = false -> isfinite (a - Fin y)%fl = false.
Proof. intros Ha. unfold fsub. cbn [fneg]. now apply fadd_Fin_r. Qed.


(** ** Inputs outside the domain *)







(** ** The contract type and the global read of [delta] *)

Lemma logistic_cdf_range (x : R) : 0 <= logistic_cdf x <= 1.
Proof.
  unfold logistic_cdf.
  pose proof (exp_pos (- x)) as He.
  assert (Hden : 0 < 1 + exp (- x)) by lra.
  pose proof (Rinv_0_lt_compat _ Hden) as Hinv.
  split; [lra |].
  replace 1 with (/ 1) at 2 by apply Rinv_1.
  apply Rinv_le_contravar; lra.
Qed.

Section Dispatch.

Variable Phi : R -> R.
Variable phi : R -> R.

(** For a call, [delta] returns [norm.cdf] of the global [d1], whatever
    its argument [d_1] is. *)
Lemma delta_call_global (G : namespace) (g d_1 : float) :
  delta Phi (ns_set G "d1" g) d_1 "c" = Ret (PyFloat (norm_cdf Phi g)).
Proof. reflexivity. Qed.

(** For a put, [delta] returns minus [norm.cdf] of minus its argument. *)
Lemma delta_put_argument (G : namespace) (x : R) :
  delta Phi G (Fin x) "p" = Ret (PyFloat (Fin (- Phi (- x)))).
Proof. reflexivity. Qed.

(** C8, what the code does: the same call of [delta] raises [NameError]
    when the module has no global [d1] and returns [norm.cdf] of that
    global when it has one. *)
Theorem delta_depends_on_globals (g d_1 : float) :
  delta Phi ns_empty d_1 "c" = Raise (NameError "d1")
  /\ delta Phi (ns_set ns_empty "d1" g) d_1 "c"
     = Ret (PyFloat (norm_cdf Phi g)).
Proof. split; reflexivity. Qed.

(** The call delta minus the put delta, with the global [d1] at [g] and
    the argument at [x], is [Phi g + Phi (- x)]. *)
Lemma delta_call_minus_put (G : namespace) (g x : R) :
  delta Phi (ns_set G "d1" (Fin g)) (Fin x) "c" = Ret (PyFloat (Fin (Phi g)))
  /\ delta Phi (ns_set G "d1" (Fin g)) (Fin x) "p"
     = Ret (PyFloat (Fin (- Phi (- x))))
  /\ Phi g - - Phi (- x) = Phi g + Phi (- x).
Proof. repeat split. ring. Qed.

(** When the global [d1] holds the value that is passed as [d_1], the
    two deltas are in range and differ by one. *)
Lemma delta_bounds_global_matches (G : namespace) (x : R) :
  (forall y, 0 <= Phi y <= 1) ->
  (forall y, Phi y + Phi (- y) = 1) ->
  exists c p,
    delta Phi (ns_set G "d1" (Fin x)) (Fin x) "c" = Ret (PyFloat (Fin c))
    /\ delta Phi (ns_set G "d1" (Fin x)) (Fin x) "p" = Ret (PyFloat (Fin p))
    /\ 0 <= c <= 1 /\ -1 <= p <= 0 /\ c - p = 1.
Proof.
  intros Hrange Hsym.
  exists (Phi x), (- Phi (- x)).
  pose proof (Hrange x). pose proof (Hrange (- x)). pose proof (Hsym x).
  repeat split; lra.
Qed.

(** C2, as the code has it: for a contract type other than ['c'] and
    ['p'], [delta] raises nothing and returns [None], and [theta] raises
    [UnboundLocalError] for its local [theta]. *)
Theorem invalid_contract_type_outcome
    (G : namespace) (d_1 d1 d2 S K sigma r t : float) (ct : string) :
  ct <> "c" -> ct <> "p" ->
  delta Phi G d_1 ct = Ret PyNone
  /\ theta Phi phi d1 d2 S K sigma r t ct
     = Raise (UnboundLocalError "theta").
Proof.
  intros Hc Hp.
  apply String.eqb_neq in Hc, Hp.
  unfold delta, theta. rewrite Hc, Hp. split; reflexivity.
Qed.

End Dispatch.

(** The contract type ['x']: [None] from [delta], an unbound local in
    [theta]. *)
Lemma invalid_contract_type_outcome_witness :
  delta logistic_cdf ns_empty (Fin 0) "x" = Ret PyNone
  /\ theta logistic_cdf std_normal_pdf (Fin 0) (Fin 0) (Fin 1) (Fin 1) (Fin 1)
       (Fin 0) (Fin 1) "x"
     = Raise (UnboundLocalError "theta").
Proof.
  apply (invalid_contract_type_outcome logistic_cdf std_normal_pdf ns_empty
           (Fin 0) (Fin 0) (Fin 0) (Fin 1) (Fin 1) (Fin 1) (Fin 0) (Fin 1) "x");
    discriminate.
Defined.

(** C2 fails as stated: for the contract type ['x'], [delta] does not
    fail; it returns [None]. *)
Lemma delta_unknown_type_returns_none :
  raises (delta logistic_cdf ns_empty (Fin 0) "x") = false
  /\ delta logistic_cdf ns_empty (Fin 0) "x" = Ret PyNone.
Proof. split; reflexivity. Qed.

(** C9, what the code does: with a distribution function that maps into
    [0, 1] and is symmetric, a global [d1 = 0] and the argument [1], the
    call delta minus the put delta is not one. *)
Theorem delta_difference_stale_global :
  (forall y, 0 <= logistic_cdf y <= 1)
  /\ (forall y, logistic_cdf y + logistic_cdf (- y) = 1)
  /\ exists c p,
       delta logistic_cdf (ns_set ns_empty "d1" (Fin 0)) (Fin 1) "c"
       = Ret (PyFloat (Fin c))
       /\ delta logistic_cdf (ns_set ns_empty "d1" (Fin 0)) (Fin 1) "p"
          = Ret (PyFloat (Fin p))
       /\ c - p <> 1.
Proof.
  split; [exact logistic_cdf_range |].
  split; [exact logistic_cdf_sym |].
  destruct (delta_call_minus_put logistic_cdf ns_empty 0 1) as (Hc & Hp & Hd).
  eexists _, _. split; [exact Hc |]. split; [exact Hp |].
  rewrite Hd. unfold logistic_cdf.
  rewrite Ropp_involutive, Ropp_0, exp_0.
  pose proof (exp_ineq1 1 ltac:(lra)) as He.
  assert (Hden : 0 < 1 + exp 1) by lra.
  intros Heq.
  assert (H2 : / (1 + exp 1) = / 2) by lra.
  apply Rinv_eq_reg in H2. lra.
Qed.

Lemma exp_neg_lt_1 (x : R) : 0 < x -> exp (- x) < 1.
Proof. intros Hx. rewrite <- exp_0. apply exp_increasing. lra. Qed.

(** C1, what the code does: for a call, [delta] returns [norm.cdf] of the
    global [d1] for every argument [d_1]; with the global at [0] and the
    argument [1] that is not the distribution function at the argument. *)
Theorem delta_call_reads_global :
  (forall (Phi : R -> R) (G : namespace) (g d_1 : float),
      delta Phi (ns_set G "d1" g) d_1 "c" = Ret (PyFloat (norm_cdf Phi g)))
  /\ delta logistic_cdf (ns_set ns_empty "d1" (Fin 0)) (Fin 1) "c"
     = Ret (PyFloat (Fin (logistic_cdf 0)))
  /\ logistic_cdf 0 <> logistic_cdf 1.
Proof.
  split; [intros; apply delta_call_global |].
  split; [apply delta_call_global |].
  unfold logistic_cdf. intros Heq.
  apply Rinv_eq_reg in Heq.
  rewrite Ropp_0, exp_0 in Heq.
  pose proof (exp_neg_lt_1 1 ltac:(lra)). lra.
Qed.

(** ** The code on sample inputs *)

Example d_strike_zero :
  d (Fin 1) (Fin 1) (Fin 0) (Fin 0) (Fin 1) = Raise ZeroDivisionError.
Proof.
  unfold d, py_div.
  destruct (Req_dec_T 0 0) as [_ | N]; [reflexivity | now elim N].
Qed.

Example d_at_the_money :
  d (Fin 1) (Fin 1) (Fin 1) (Fin 0) (Fin 1) = Ret (Fin (1 / 2), Fin (- (1 / 2))).
Proof.
  rewrite d_unit_inputs. reflexivity.
Qed.

Example delta_put_logistic :
  delta logistic_cdf ns_empty (Fin 0) "p" = Ret (PyFloat (Fin (- (1 / 2)))).
Proof.
  rewrite delta_put_argument. do 3 f_equal.
  unfold logistic_cdf. rewrite Ropp_0, Ropp_0, exp_0. lra.
Qed.

Example theta_no_contract_type :
  theta logistic_cdf std_normal_pdf (Fin 0) (Fin 0) (Fin 1) (Fin 1) (Fin 1)
    (Fin 0) (Fin 1) "call"
  = Raise (UnboundLocalError "theta").
Proof. reflexivity. Qed.

(** ** Further properties of the Greeks and the prices

    As above, a finite value is an exact real: the statements are about
    inputs whose intermediate values are representable. *)

Lemma std_normal_pdf_pos (x : R) : 0 < std_normal_pdf x.
Proof.
  unfold std_normal_pdf. apply Rdiv_lt_0_compat; [apply exp_pos |].
  apply sqrt_lt_R0. pose proof PI_RGT_0. lra.
Qed.

Lemma std_normal_pdf_even (x : R) : std_normal_pdf (- x) = std_normal_pdf x.
Proof.
  unfold std_normal_pdf.
  replace ((- x) ^ 2) with (x ^ 2) by ring. reflexivity.
Qed.

Section Greeks.

Variable Phi : R -> R.
Variable phi : R -> R.

Lemma theta_call_Fin (d1 d2 S K sigma r t : R) :
  0 < t ->
  theta Phi phi (Fin d1) (Fin d2) (Fin S) (Fin K) (Fin sigma) (Fin r) (Fin t) "c"
  = Ret (Fin (- S * sigma * phi d1 / (2 * sqrt t)
              - r * K * exp (- r * t) * Phi d2)).
Proof.
  intros Ht. pose proof (sqrt_lt_R0 t Ht) as Hsq.
  unfold theta; cbn [String.eqb Ascii.eqb Bool.eqb load_local].
  rewrite np_sqrt_Fin by lra.
  cbn [fmul fneg np_exp norm_pdf norm_cdf].
  rewrite fdiv_Fin by lra. reflexivity.
Qed.

Lemma theta_put_Fin (d1 d2 S K sigma r t : R) :
  0 < t ->
  theta Phi phi (Fin d1) (Fin d2) (Fin S) (Fin K) (Fin sigma) (Fin r) (Fin t) "p"
  = Ret (Fin (- S * sigma * phi (- d1) / (2 * sqrt t)
              + r * K * exp (- r * t) * Phi (- d2))).
Proof.
  intros Ht. pose proof (sqrt_lt_R0 t Ht) as Hsq.
  unfold theta; cbn [String.eqb Ascii.eqb Bool.eqb load_local].
  rewrite np_sqrt_Fin by lra.
  cbn [fmul fneg np_exp norm_pdf norm_cdf].
  rewrite fdiv_Fin by lra. reflexivity.
Qed.

(** X1: for [t > 0], an even density and a symmetric distribution
    function, the put's theta exceeds the call's by [r K e^(-r t)],
    whatever [d1], [d2], [S] and [sigma] are. *)
Theorem theta_put_minus_call (d1 d2 S K sigma r t : R) :
  0 < t ->
  (forall x, phi (- x) = phi x) ->
  (forall x, Phi x + Phi (- x) = 1) ->
  exists c p,
    theta Phi phi (Fin d1) (Fin d2) (Fin S) (Fin K) (Fin sigma) (Fin r)
      (Fin t) "c" = Ret (Fin c)
    /\ theta Phi phi (Fin d1) (Fin d2) (Fin S) (Fin K) (Fin sigma) (Fin r)
         (Fin t) "p" = Ret (Fin p)
    /\ p - c = r * K * exp (- (r * t)).
Proof.
  intros Ht Heven Hsym.
  eexists _, _.
  split; [now apply theta_call_Fin |].
  split; [now apply theta_put_Fin |].
  rewrite Heven.
  replace (- r * t) with (- (r * t)) by ring.
  pose proof (Hsym d2) as H2.
  replace (Phi (- d2)) with (1 - Phi d2) by lra.
  ring.
Qed.

Lemma gamma_Fin (d2 S K sigma r t : R) :
  / box <= Rabs S <= box -> sigma <> 0 -> 0 < t ->
  gamma phi (Fin d2) (Fin S) (Fin K) (Fin sigma) (Fin r) (Fin t)
  = Ret (Fin (K * exp (- r * t) * (phi d2 / (S * S * sigma * sqrt t)))).
Proof.
  intros MS Hs Ht. pose proof (sqrt_lt_R0 t Ht) as Hsq.
  assert (HS : S <> 0).
  { intros ->. rewrite Rabs_R0 in MS.
    pose proof (Rinv_0_lt_compat _ box_pos). lra. }
  assert (Hden : S * S * sigma * sqrt t <> 0).
  { repeat apply Rmult_integral_contrapositive_currified; lra. }
  unfold gamma.
  rewrite py_sqr_Fin by assumption. cbn [bind].
  rewrite np_sqrt_Fin by lra.
  cbn [fmul fneg np_exp norm_pdf].
  rewrite fdiv_Fin by assumption. reflexivity.
Qed.

(** X2: for [S], [K], [sigma] and [t] between [1e-30] and [1e30] and
    [|r t| <= 100], [gamma] returns a finite number, and it is not
    negative when the density is not negative at [d2]. *)
Theorem gamma_nonneg (d2 S K sigma r t : R) :
  moderate S -> moderate K -> moderate sigma -> moderate t ->
  Rabs (r * t) <= 100 -> 0 <= phi d2 ->
  exists g,
    gamma phi (Fin d2) (Fin S) (Fin K) (Fin sigma) (Fin r) (Fin t)
    = Ret (Fin g)
    /\ 0 <= g.
Proof.
  intros MS MK Ms Mt _ Hphi.
  pose proof (moderate_pos _ MS) as HS. pose proof (moderate_pos _ MK) as HK.
  pose proof (moderate_pos _ Ms) as Hs. pose proof (moderate_pos _ Mt) as Ht.
  eexists. split; [apply gamma_Fin; [now apply moderate_abs | lra | lra] |].
  pose proof (sqrt_lt_R0 t Ht) as Hsq.
  pose proof (exp_pos (- r * t)) as He.
  assert (Hden : 0 < S * S * sigma * sqrt t).
  { repeat apply Rmult_lt_0_compat; assumption. }
  apply Rmult_le_pos.
  - apply Rmult_le_pos; lra.
  - unfold Rdiv. apply Rmult_le_pos; [assumption |].
    left. now apply Rinv_0_lt_compat.
Qed.

(** X3: when the distribution function maps into [0, 1], spot and
    strike are between [0] and [1e30] and [|r t| <= 100], the two prices
    are finite, the call price is at most the spot [S] and the put price
    at most the discounted strike [K e^(-r t)]. *)
Theorem price_upper_bounds (sigma : float) (S K r t d1 d2 : R) :
  (forall x, 0 <= Phi x <= 1) -> 0 <= S <= box -> 0 <= K <= box ->
  Rabs (r * t) <= 100 ->
  exists c p,
    call_price Phi sigma (Fin S) (Fin K) (Fin r) (Fin t) (Fin d1) (Fin d2)
    = Fin c
    /\ put_price Phi sigma (Fin S) (Fin K) (Fin r) (Fin t) (Fin d1) (Fin d2)
       = Fin p
    /\ c <= S /\ p <= K * exp (- (r * t)).
Proof.
  intros Hrange [HS _] [HK _] _.
  eexists _, _. split; [reflexivity |]. split; [reflexivity |].
  replace (- r * t) with (- (r * t)) by ring.
  pose proof (exp_pos (- (r * t))) as He.
  set (e := exp (- (r * t))) in *.
  assert (HKe : 0 <= K * e) by (apply Rmult_le_pos; lra).
  pose proof (Hrange d1) as A1. pose proof (Hrange d2) as A2.
  pose proof (Hrange (- d1)) as B1. pose proof (Hrange (- d2)) as B2.
  split.
  - assert (Phi d1 * S <= S) by nra.
    assert (0 <= Phi d2 * K * e) by (rewrite Rmult_assoc; apply Rmult_le_pos; lra).
    lra.
  - assert (0 <= Phi (- d1) * S) by (apply Rmult_le_pos; lra).
    assert (Phi (- d2) * K * e <= K * e) by (rewrite Rmult_assoc; nra).
    lra.
Qed.

End Greeks.

(** The put's theta minus the call's at the notebook's data, with the
    normal density and the logistic distribution function. *)
Lemma theta_put_minus_call_witness :
  exists c p,
    theta logistic_cdf std_normal_pdf (Fin (-1)) (Fin (-1)) (Fin (81942 / 100))
      (Fin 1020) (Fin (6966 / 10000)) (Fin (1 / 100)) (Fin (42 / 365)) "c"
    = Ret (Fin c)
    /\ theta logistic_cdf std_normal_pdf (Fin (-1)) (Fin (-1))
         (Fin (81942 / 100)) (Fin 1020) (Fin (6966 / 10000)) (Fin (1 / 100))
         (Fin (42 / 365)) "p"
       = Ret (Fin p)
    /\ p - c = 1 / 100 * 1020 * exp (- (1 / 100 * (42 / 365))).
Proof.
  apply (theta_put_minus_call logistic_cdf std_normal_pdf (-1) (-1)
           (81942 / 100) 1020 (6966 / 10000) (1 / 100) (42 / 365));
    [lra | exact std_normal_pdf_even | exact logistic_cdf_sym].
Defined.

(** The sign of [gamma] at the notebook's data, with the normal density. *)
Lemma gamma_nonneg_witness :
  exists g,
    gamma std_normal_pdf (Fin (-1)) (Fin (81942 / 100)) (Fin 1020)
      (Fin (6966 / 10000)) (Fin (1 / 100)) (Fin (42 / 365)) = Ret (Fin g)
    /\ 0 <= g.
Proof.
  apply (gamma_nonneg std_normal_pdf (-1) (81942 / 100) 1020 (6966 / 10000)
           (1 / 100) (42 / 365));
    [unfold moderate, box; lra | unfold moderate, box; lra
    | unfold moderate, box; lra | unfold moderate, box; lra | |].
  - unfold Rabs. destruct (Rcase_abs (1 / 100 * (42 / 365))); lra.
  - left. apply std_normal_pdf_pos.
Defined.

(** The bounds of the two prices at the notebook's data, with the
    logistic distribution function. *)
Lemma price_upper_bounds_witness :
  exists c p,
    call_price logistic_cdf (Fin (6966 / 10000)) (Fin (81942 / 100)) (Fin 1020)
      (Fin (1 / 100)) (Fin (42 / 365)) (Fin (-1)) (Fin (-1)) = Fin c
    /\ put_price logistic_cdf (Fin (6966 / 10000)) (Fin (81942 / 100))
         (Fin 1020) (Fin (1 / 100)) (Fin (42 / 365)) (Fin (-1)) (Fin (-1))
       = Fin p
    /\ c <= 81942 / 100
    /\ p <= 1020 * exp (- (1 / 100 * (42 / 365))).
Proof.
  apply (price_upper_bounds logistic_cdf (Fin (6966 / 10000)) (81942 / 100)
           1020 (1 / 100) (42 / 365) (-1) (-1));
    [exact logistic_cdf_range | unfold box; lra | unfold box; lra |].
  unfold Rabs. destruct (Rcase_abs (1 / 100 * (42 / 365))); lra.
Defined.

(** ** Where the functions fail and where they return non-finite values *)

Lemma fmul_nonfinite_r (a b : float) :
  isfinite b = false -> isfinite (a * b)%fl = false.
Proof.
  intros Hb. destruct b as [y | s |]; [discriminate | |].
  - destruct a as [x | s' |]; cbn; [| reflexivity ..].
    destruct (Req_dec_T x 0); reflexivity.
  - destruct a; reflexivity.
Qed.

Lemma fdiv_Fin_zero (x y : R) : y = 0 -> isfinite (Fin x / Fin y)%fl = false.
Proof.
  intros Hy. unfold fdiv.
  destruct (Req_dec_T y 0) as [_ | N]; [| contradiction].
  destruct (Req_dec_T x 0); reflexivity.
Qed.

Lemma fadd_NaN_r (a : float) : (a + NaN)%fl = NaN.
Proof. destruct a; reflexivity. Qed.

Section Failures.

Variable Phi : R -> R.
Variable phi : R -> R.

(** X5: [delta] raises exactly when it is asked for a call and the
    module has no global [d1]; for a put and for an unknown contract
    type it never raises. *)
Theorem delta_raises_iff (G : namespace) (d_1 : float) (ct : string) :
  raises (delta Phi G d_1 ct) = true <-> ct = "c" /\ G "d1" = None.
Proof.
  unfold delta, load_global.
  destruct (String.eqb_spec ct "c") as [-> | Hc].
  - destruct (G "d1") as [g |]; cbn.
    + split; [discriminate | intros [_ N]; discriminate].
    + split; [now split | reflexivity].
  - destruct (String.eqb ct "p"); cbn;
      (split; [discriminate | intros [N _]; contradiction]).
Qed.

(** X6: with a time to expiration that is zero or negative, [theta]
    raises nothing for a call or a put and returns a value that is not
    finite. *)
Theorem theta_nonpositive_time (d1 d2 S K sigma r t : R) (ct : string) :
  t <= 0 -> ct = "c" \/ ct = "p" ->
  exists v,
    theta Phi phi (Fin d1) (Fin d2) (Fin S) (Fin K) (Fin sigma) (Fin r)
      (Fin t) ct = Ret v
    /\ isfinite v = false.
Proof.
  intros Ht Hct.
  assert (Hq : forall x, isfinite (Fin x / (Fin 2 * np_sqrt (Fin t)))%fl = false).
  { intros x. unfold np_sqrt.
    destruct (Rlt_dec t 0) as [L | N]; [reflexivity |].
    cbn [fmul]. apply fdiv_Fin_zero.
    replace t with 0 by lra. rewrite sqrt_0. ring. }
  destruct Hct as [-> | ->]; unfold theta;
    cbn [String.eqb Ascii.eqb Bool.eqb load_local];
    eexists; (split; [reflexivity |]);
    cbn [fmul fneg np_exp norm_pdf norm_cdf].
  - apply fsub_Fin_r, Hq.
  - apply fadd_Fin_r, Hq.
Qed.

(** X7: with a spot of magnitude at most [1e30] and a zero spot, a zero
    volatility or a time to expiration that is zero or negative, [gamma]
    raises nothing and returns a value that is not finite. *)
Theorem gamma_degenerate (d2 S K sigma r t : R) :
  Rabs S <= box ->
  S = 0 \/ sigma = 0 \/ t <= 0 ->
  exists v,
    gamma phi (Fin d2) (Fin S) (Fin K) (Fin sigma) (Fin r) (Fin t) = Ret v
    /\ isfinite v = false.
Proof.
  intros HS Hdeg. unfold gamma.
  rewrite py_sqr_small by assumption.
  assert (Hy : exists y, to_range (S * S) = Fin y /\ (S = 0 -> y = 0)).
  { unfold to_range.
    destruct (Rlt_dec float_max (Rabs (S * S))) as [L | _].
    - exfalso. rewrite Rabs_mult in L.
      pose proof box_sq_max. pose proof (Rabs_pos S). nra.
    - destruct (Rlt_dec (Rabs (S * S)) float_tiny);
        eexists; (split; [reflexivity |]); intros ->; ring. }
  destruct Hy as (y & -> & Hy0). cbn [bind].
  eexists. split; [reflexivity |].
  apply fmul_nonfinite_r.
  cbn [norm_pdf fmul]. unfold np_sqrt.
  destruct (Rlt_dec t 0) as [L | N]; [reflexivity |].
  cbn [fmul]. apply fdiv_Fin_zero.
  destruct Hdeg as [HS0 | [-> | Ht]]; [rewrite (Hy0 HS0); ring | ring |].
  replace t with 0 by lra. rewrite sqrt_0. ring.
Qed.

(** X8: a NaN in [d1] or in [d2] makes both prices NaN, whatever the
    other arguments are. *)
Theorem price_nan_propagates (sigma S K r t d1 d2 : float) :
  d1 = NaN \/ d2 = NaN ->
  call_price Phi sigma S K r t d1 d2 = NaN
  /\ put_price Phi sigma S K r t d1 d2 = NaN.
Proof.
  intros [-> | ->]; unfold call_price, put_price, fsub;
    cbn [norm_cdf fneg fmul fadd].
  - split; reflexivity.
  - split; apply fadd_NaN_r.
Qed.

End Failures.

(** Zero time to expiration at the notebook's other data: [theta] for a
    call is not finite. *)
Lemma theta_nonpositive_time_witness :
  exists v,
    theta logistic_cdf std_normal_pdf (Fin (-1)) (Fin (-1)) (Fin (81942 / 100))
      (Fin 1020) (Fin (6966 / 10000)) (Fin (1 / 100)) (Fin 0) "c" = Ret v
    /\ isfinite v = false.
Proof.
  apply (theta_nonpositive_time logistic_cdf std_normal_pdf (-1) (-1)
           (81942 / 100) 1020 (6966 / 10000) (1 / 100) 0 "c");
    [lra | left; reflexivity].
Defined.

(** Zero volatility at the notebook's other data: [gamma] is not
    finite. *)
Lemma gamma_degenerate_witness :
  exists v,
    gamma std_normal_pdf (Fin (-1)) (Fin (81942 / 100)) (Fin 1020) (Fin 0)
      (Fin (1 / 100)) (Fin (42 / 365)) = Ret v
    /\ isfinite v = false.
Proof.
  apply (gamma_degenerate std_normal_pdf (-1) (81942 / 100) 1020 0 (1 / 100)
           (42 / 365)).
  - unfold Rabs, box. destruct (Rcase_abs (81942 / 100)); lra.
  - right; left; reflexivity.
Defined.

(** A NaN in [d1]: both prices are NaN. *)
Lemma price_nan_propagates_witness :
  call_price logistic_cdf (Fin 1) (Fin 1) (Fin 1) (Fin 0) (Fin 1) NaN (Fin 0)
  = NaN
  /\ put_price logistic_cdf (Fin 1) (Fin 1) (Fin 1) (Fin 0) (Fin 1) NaN (Fin 0)
     = NaN.
Proof.
  apply (price_nan_propagates logistic_cdf (Fin 1) (Fin 1) (Fin 1) (Fin 0)
           (Fin 1) NaN (Fin 0)).
  left; reflexivity.
Defined.

(** ** The functions composed *)

Lemma d_Fin (sigma S K r t : R) :
  moderate sigma -> moderate t -> moderate S -> moderate K ->
  d (Fin sigma) (Fin S) (Fin K) (Fin r) (Fin t) =
  Ret (Fin (1 / (sigma * sqrt t)
            * (ln (S / K) + (r + sigma * sigma / 2) * t)),
       Fin (1 / (sigma * sqrt t)
            * (ln (S / K) + (r + sigma * sigma / 2) * t)
            + - (sigma * sqrt t))).
Proof.
  intros Ms Mt MS MK.
  pose proof (moderate_pos _ Ms) as Hs. pose proof (moderate_pos _ Mt) as Ht.
  pose proof (moderate_pos _ MS) as HS. pose proof (moderate_pos _ MK) as HK.
  pose proof (sigma_sqrt_pos sigma t Hs Ht) as Hden.
  assert (Hq : 0 < S / K) by now apply Rdiv_lt_0_compat.
  unfold d.
  rewrite py_div_Fin by now apply moderate_abs.
  cbn [bind].
  rewrite py_sqr_Fin by now apply moderate_abs.
  cbn [bind].
  rewrite np_sqrt_Fin by lra. cbn [fmul].
  rewrite !fdiv_Fin by lra.
  rewrite np_log_Fin by assumption.
  reflexivity.
Qed.

Section Composition.

Variable Phi : R -> R.

(** X11: [d] depends on spot and strike only through their ratio:
    scaling both by the same non-zero factor changes nothing. *)
Theorem d_scale_invariant (sigma r t : float) (S K c : R) :
  c <> 0 -> K <> 0 ->
  d sigma (Fin (c * S)) (Fin (c * K)) r t = d sigma (Fin S) (Fin K) r t.
Proof.
  intros Hc HK.
  assert (HcK : c * K <> 0) by now apply Rmult_integral_contrapositive_currified.
  unfold d. rewrite !py_div_nonzero by assumption.
  replace (c * S / (c * K)) with (S / K) by (field; split; assumption).
  reflexivity.
Qed.

(** X12: the notebook's own sequence of cells.  With market inputs
    between [1e-30] and [1e30] (the rate of magnitude at most [1e30]) in
    the globals, the cell that calls [d] stores its pair in the
    globals [d1] and [d2], and the next cell then prints
    [Phi d1] and [- Phi (- d1)] for that [d1]; with a symmetric
    distribution function the two differ by one. *)
Theorem notebook_deltas (G : namespace) (S K r t sigma : R) :
  moderate S -> moderate K -> moderate t -> moderate sigma ->
  Rabs r <= box ->
  (forall x, Phi x + Phi (- x) = 1) ->
  exists G' c p,
    cell_d (market_globals G (Fin S) (Fin K) (Fin r) (Fin t) (Fin sigma))
    = Ret G'
    /\ cell_delta Phi G' = Ret (PyFloat (Fin c), PyFloat (Fin p))
    /\ c = Phi ((ln (S / K) + (r + sigma ^ 2 / 2) * t) / (sigma * sqrt t))
    /\ p = - Phi (- ((ln (S / K) + (r + sigma ^ 2 / 2) * t) / (sigma * sqrt t)))
    /\ c - p = 1.
Proof.
  intros MS MK Mt Ms _ Hsym.
  pose proof (moderate_pos _ Ms) as Hs. pose proof (moderate_pos _ Mt) as Ht.
  pose proof (sigma_sqrt_pos sigma t Hs Ht) as Hden.
  set (x := (ln (S / K) + (r + sigma ^ 2 / 2) * t) / (sigma * sqrt t)).
  assert (Hx : 1 / (sigma * sqrt t)
               * (ln (S / K) + (r + sigma * sigma / 2) * t) = x).
  { unfold x. field. pose proof (sqrt_lt_R0 t Ht). split; lra. }
  eexists _, (Phi x), (- Phi (- x)).
  split.
  { unfold cell_d, market_globals, load_global, ns_set.
    cbn [String.eqb Ascii.eqb Bool.eqb bind].
    rewrite d_Fin by assumption. cbn [bind fst snd]. rewrite Hx.
    reflexivity. }
  split.
  { unfold cell_delta, delta, load_global, ns_set.
    cbn [String.eqb Ascii.eqb Bool.eqb bind norm_cdf fneg]. reflexivity. }
  split; [reflexivity |]. split; [reflexivity |].
  pose proof (Hsym x). lra.
Qed.

End Composition.

(** Spot and strike of the notebook, doubled. *)
Lemma d_scale_invariant_witness :
  d (Fin (6966 / 10000)) (Fin (2 * (81942 / 100))) (Fin (2 * 1020))
    (Fin (1 / 100)) (Fin (42 / 365))
  = d (Fin (6966 / 10000)) (Fin (81942 / 100)) (Fin 1020) (Fin (1 / 100))
      (Fin (42 / 365)).
Proof.
  apply (d_scale_invariant (Fin (6966 / 10000)) (Fin (1 / 100))
           (Fin (42 / 365)) (81942 / 100) 1020 2); lra.
Defined.

(** The notebook's cells on the notebook's data, from empty globals. *)
Lemma notebook_deltas_witness :
  exists G' c p,
    cell_d (market_globals ns_empty (Fin (81942 / 100)) (Fin 1020)
              (Fin (1 / 100)) (Fin (42 / 365)) (Fin (6966 / 10000)))
    = Ret G'
    /\ cell_delta logistic_cdf G' = Ret (PyFloat (Fin c), PyFloat (Fin p))
    /\ c = logistic_cdf
             ((ln (81942 / 100 / 1020)
               + (1 / 100 + (6966 / 10000) ^ 2 / 2) * (42 / 365))
              / (6966 / 10000 * sqrt (42 / 365)))
    /\ p = - logistic_cdf
               (- ((ln (81942 / 100 / 1020)
                    + (1 / 100 + (6966 / 10000) ^ 2 / 2) * (42 / 365))
                   / (6966 / 10000 * sqrt (42 / 365))))
    /\ c - p = 1.
Proof.
  apply (notebook_deltas logistic_cdf ns_empty (81942 / 100) 1020 (1 / 100)
           (42 / 365) (6966 / 10000));
    [unfold moderate, box; lra | unfold moderate, box; lra
    | unfold moderate, box; lra | unfold moderate, box; lra
    | | exact logistic_cdf_sym].
  unfold Rabs, box. destruct (Rcase_abs (1 / 100)); lra.
Defined.

Section CellOrder.

Variable Phi : R -> R.
Variable phi : R -> R.

(** X13: the notebook's last cell after the cell that calls [d].  With
    market inputs between [1e-30] and [1e30], a rate of magnitude at most
    [1e30] with [|r t| <= 100], an even density and a symmetric
    distribution function, the two printed thetas are finite and the
    put's exceeds the call's by [r K e^(-r t) / 365 * 100]. *)
Theorem notebook_thetas (G : namespace) (S K r t sigma : R) :
  moderate S -> moderate K -> moderate t -> moderate sigma ->
  Rabs r <= box -> Rabs (r * t) <= 100 ->
  (forall x, phi (- x) = phi x) ->
  (forall x, Phi x + Phi (- x) = 1) ->
  exists G' c p,
    cell_d (market_globals G (Fin S) (Fin K) (Fin r) (Fin t) (Fin sigma))
    = Ret G'
    /\ cell_theta Phi phi G' = Ret (Fin c, Fin p)
    /\ p - c = r * K * exp (- (r * t)) / 365 * 100.
Proof.
  intros MS MK Mt Ms _ _ Heven Hsym.
  pose proof (moderate_pos _ Mt) as Ht.
  eexists _, _, _.
  split.
  { unfold cell_d, market_globals, load_global, ns_set.
    cbn [String.eqb Ascii.eqb Bool.eqb bind].
    rewrite d_Fin by assumption. cbn [bind fst snd]. reflexivity. }
  split.
  { unfold cell_theta, theta_from_globals, load_global, ns_set.
    cbn [String.eqb Ascii.eqb Bool.eqb bind].
    rewrite theta_call_Fin, theta_put_Fin by assumption.
    cbn [bind]. rewrite !fdiv_Fin by lra. cbn [fmul]. reflexivity. }
  rewrite Heven.
  replace (- r * t) with (- (r * t)) by ring.
  set (y := 1 / (sigma * sqrt t) * (ln (S / K) + (r + sigma * sigma / 2) * t)
            + - (sigma * sqrt t)).
  pose proof (Hsym y) as Hy.
  replace (Phi (- y)) with (1 - Phi y) by lra.
  pose proof (sqrt_lt_R0 t Ht) as Hsq.
  field. lra.
Qed.

(** X14: the cells of the Greeks depend on the cell that calls [d].
    While the globals [d1] and [d2] are unbound, the delta cell and the
    theta cell raise [NameError] for [d1] and the gamma cell raises it
    for [d2], whatever else is bound. *)
Theorem greeks_cells_need_d (G : namespace) :
  G "d1" = None -> G "d2" = None ->
  cell_delta Phi G = Raise (NameError "d1")
  /\ cell_gamma phi G = Raise (NameError "d2")
  /\ cell_theta Phi phi G = Raise (NameError "d1").
Proof.
  intros H1 H2.
  unfold cell_delta, cell_gamma, cell_theta, theta_from_globals, load_global.
  rewrite H1, H2. repeat split.
Qed.

End CellOrder.

(** The last cell on the notebook's data, from empty globals. *)
Lemma notebook_thetas_witness :
  exists G' c p,
    cell_d (market_globals ns_empty (Fin (81942 / 100)) (Fin 1020)
              (Fin (1 / 100)) (Fin (42 / 365)) (Fin (6966 / 10000)))
    = Ret G'
    /\ cell_theta logistic_cdf std_normal_pdf G' = Ret (Fin c, Fin p)
    /\ p - c = 1 / 100 * 1020 * exp (- (1 / 100 * (42 / 365))) / 365 * 100.
Proof.
  apply (notebook_thetas logistic_cdf std_normal_pdf ns_empty (81942 / 100)
           1020 (1 / 100) (42 / 365) (6966 / 10000));
    [unfold moderate, box; lra | unfold moderate, box; lra
    | unfold moderate, box; lra | unfold moderate, box; lra
    | | | exact std_normal_pdf_even | exact logistic_cdf_sym].
  - unfold Rabs, box. destruct (Rcase_abs (1 / 100)); lra.
  - unfold Rabs. destruct (Rcase_abs (1 / 100 * (42 / 365))); lra.
Defined.

(** The globals right after the market inputs were assigned: no [d1], no
    [d2]. *)
Lemma greeks_cells_need_d_witness :
  cell_delta logistic_cdf
    (market_globals ns_empty (Fin 1) (Fin 1) (Fin 0) (Fin 1) (Fin 1))
  = Raise (NameError "d1")
  /\ cell_gamma std_normal_pdf
       (market_globals ns_empty (Fin 1) (Fin 1) (Fin 0) (Fin 1) (Fin 1))
     = Raise (NameError "d2")
  /\ cell_theta logistic_cdf std_normal_pdf
       (market_globals ns_empty (Fin 1) (Fin 1) (Fin 0) (Fin 1) (Fin 1))
     = Raise (NameError "d1").
Proof.
  apply (greeks_cells_need_d logistic_cdf std_normal_pdf
           (market_globals ns_empty (Fin 1) (Fin 1) (Fin 0) (Fin 1) (Fin 1)));
    reflexivity.
Defined.
